(** * KVR: the key-value REST server of src/server.js

    The server keeps one plain JavaScript object, [const store = {}], and
    four Express route handlers read and mutate it.  A plain object is not
    a bare dictionary: it inherits from [Object.prototype], and the
    operators the handlers use ([in], [store[key]], assignment, [delete],
    [Object.keys]) each treat inherited properties in their own way.  The
    embedding has these layers:

    - [JS]: the fragment of JavaScript's ordinary-object semantics the
      handlers rely on, over an object whose prototype is
      [Object.prototype];
    - [Server]: the four handlers and the [port] constant, written with
      those operations, threading the store explicitly;
    - [Traffic]: sequences of routed requests;
    - [Http]: what stands between the wire and the code above: the body
      parser installed by [app.use(bodyParser.text({type: '*/*'}))], and
      [app.listen(port)].

    [Server] describes the handlers once a route has matched and the body
    parser has handed them [req.body] as text; keys are the decoded [:key]
    segment of the path.  Requests the parser refuses, or passes on without
    a text body, are told apart in [Http] and never reach [Server]. *)

From Stdlib Require Import Ascii.
From stdpp Require Import gmap strings list fin_maps.

Local Open Scope string_scope.

(** ** JavaScript objects, as far as server.js uses them *)

Module JS.

(** The values that can flow through the handlers and through [port]. *)
Inductive value :=
| VUndefined
| VNumber (n : Z)
| VString (s : string)
| VObjectPrototype            (* the object Object.prototype itself *)
| VBuiltin (name : string).   (* the function Object.prototype[name] *)

#[global] Instance value_eq_dec : EqDecision value.
Proof. solve_decision. Defined.

(** Own properties of an object created by [{}] and only ever assigned
    strings.  Properties made by assignment are writable, enumerable and
    configurable data properties, so a finite map from names to values
    describes them; the order of insertion is not observable through
    the handlers. *)
Abbreviation object := (gmap string string) (only parsing).

(** The two kinds of property found on [Object.prototype]. *)
Inductive inherited :=
| Method          (* writable data property holding a function *)
| ProtoAccessor.  (* the accessor pair get/set __proto__ *)

Definition prototype_methods : list string :=
  [ "constructor"; "__defineGetter__"; "__defineSetter__";
    "hasOwnProperty"; "__lookupGetter__"; "__lookupSetter__";
    "isPrototypeOf"; "propertyIsEnumerable"; "toString"; "valueOf";
    "toLocaleString" ].

(** [Object.prototype.[[GetOwnProperty]](k)]. *)
Definition object_prototype (k : string) : option inherited :=
  if decide (k = "__proto__") then Some ProtoAccessor
  else if decide (k ∈ prototype_methods) then Some Method
  else None.

(** [Object.prototype.hasOwnProperty.call(o, k)]. *)
Definition has_own (o : object) (k : string) : bool :=
  bool_decide (is_Some (o !! k)).

(** [k in o]: [[HasProperty]] looks at the object, then along its
    prototype chain. *)
Definition js_in (k : string) (o : object) : bool :=
  has_own o k || bool_decide (is_Some (object_prototype k)).

(** [o[k]]: [[Get]].  An own property wins; otherwise the property of
    [Object.prototype] is read, the getter of [__proto__] returning the
    prototype of the receiver; otherwise [undefined]. *)
Definition js_get (o : object) (k : string) : value :=
  match o !! k with
  | Some s => VString s
  | None =>
      match object_prototype k with
      | Some Method => VBuiltin k
      | Some ProtoAccessor => VObjectPrototype
      | None => VUndefined
      end
  end.

(** [o[k] = s] for a string [s]: [[Set]].  An own data property is
    overwritten.  Otherwise an inherited accessor has its setter called,
    and the setter of [__proto__] returns without effect when handed
    anything but an object or [null]; an inherited writable data property,
    or no property at all, makes a new own property on [o]. *)
Definition js_set (o : object) (k : string) (s : string) : object :=
  match o !! k with
  | Some _ => <[k := s]> o
  | None =>
      match object_prototype k with
      | Some ProtoAccessor => o
      | Some Method | None => <[k := s]> o
      end
  end.

(** [delete o[k]]: removes an own property, never an inherited one. *)
Definition js_delete (o : object) (k : string) : object :=
  delete k o.

(** [Object.keys(o)]: the names of the own enumerable properties, as a
    fresh array. *)
Definition js_keys (o : object) : list string :=
  (map_to_list o).*1.

(** [ToBoolean] and the operator [a || b]. *)
Definition to_boolean (v : value) : bool :=
  match v with
  | VUndefined => false
  | VNumber n => negb (Z.eqb n 0)
  | VString s => negb (String.eqb s EmptyString)
  | VObjectPrototype | VBuiltin _ => true
  end.

Definition js_or (a b : value) : value :=
  if to_boolean a then a else b.

End JS.

(** ** The server *)

Module Server.
Import JS.

(** What a handler does with [res]. *)
Inductive reply :=
| res_send (v : value)                                (* res.send(v) *)
| res_json (o : list (string * string))               (* res.json(o) *)
| res_status_json (code : nat) (o : list (string * string)).
                                                (* res.status(code).json(o) *)

#[global] Instance reply_eq_dec : EqDecision reply.
Proof. solve_decision. Defined.

(** The HTTP status Express answers with: [res.statusCode] starts at 200
    and only [res.status] changes it.  How Express serialises a
    non-string argument of [res.send] is not decided by server.js and is
    left open. *)
Definition status_of (r : reply) : option nat :=
  match r with
  | res_send (VString _) => Some 200
  | res_send _ => None
  | res_json _ => Some 200
  | res_status_json code _ => Some code
  end.

(** [const store = {}]. *)
Definition store : object := ∅.

(** The NotFound answer of the GET handler. *)
Definition not_found : reply :=
  res_status_json 404 [("error", "Key not found")].

(** [app.get('/:key', ...)] *)
Definition app_get (key : string) (store : object) : reply * object :=
  if negb (js_in key store) then (not_found, store)
  else (res_send (js_get store key), store).

(** [app.put('/:key', ...)], [body] being [req.body] once the body parser
    has handed it over as text (see [Http.http_put]). *)
Definition app_put (key body : string) (store : object) : reply * object :=
  let store := js_set store key body in
  (res_send (VString body), store).

(** [app.delete('/:key', ...)] *)
Definition app_delete (key : string) (store : object) : reply * object :=
  let store := js_delete store key in
  (res_json [("deleted", key)], store).

(** [app.delete('/', ...)]: [forEach] walks the array that [Object.keys]
    returned before the first deletion. *)
Definition app_delete_all (store : object) : reply * object :=
  let store := foldl (λ store k, js_delete store k) store (js_keys store) in
  (res_json [("deleted", "all")], store).

(** Requests, once Express has chosen the route and, for a PUT, the body
    parser has produced a text body.  A request that matches none of the
    four routes is answered by Express and has no constructor here. *)
Inductive request :=
| GET (key : string)
| PUT (key body : string)
| DELETE (key : string)
| DELETE_ALL.

Definition handle (r : request) (store : object) : reply * object :=
  match r with
  | GET key => app_get key store
  | PUT key body => app_put key body store
  | DELETE key => app_delete key store
  | DELETE_ALL => app_delete_all store
  end.

(** A sequence of requests served one after the other. *)
Fixpoint serve (rs : list request) (store : object) : list reply * object :=
  match rs with
  | [] => ([], store)
  | r :: rs =>
      let '(a, store) := handle r store in
      let '(as_, store) := serve rs store in
      (a :: as_, store)
  end.

(** The stores the process can be in: the one it starts with, and every
    store a handler leaves behind. *)
Inductive reachable : gmap string string → Prop :=
| reachable_start : reachable store
| reachable_handle r st : reachable st → reachable (handle r st).2.

(** [process.env.PORT]: a string when the variable is in the environment,
    [undefined] otherwise. *)
Definition env_PORT (env : gmap string string) : value :=
  match env !! "PORT" with
  | Some s => VString s
  | None => VUndefined
  end.

(** [const port = process.env.PORT || 3000], the first argument of
    [app.listen]. *)
Definition port (env : gmap string string) : value :=
  js_or (env_PORT env) (VNumber 3000).

End Server.

(** ** Request sequences and the dictionary they are compared with *)

Module Traffic.
Import JS Server.

(** The key a request names in its path, if any. *)
Definition request_key (r : request) : option string :=
  match r with
  | GET key | PUT key _ | DELETE key => Some key
  | DELETE_ALL => None
  end.

(** Whether the handler of [r] assigns to or deletes [store[k]]. *)
Definition writes (k : string) (r : request) : bool :=
  match r with
  | GET _ => false
  | PUT key _ | DELETE key => bool_decide (key = k)
  | DELETE_ALL => true
  end.

(** Requests whose key is not a property name of [Object.prototype]. *)
Definition ordinary (r : request) : bool :=
  match request_key r with
  | Some key => bool_decide (object_prototype key = None)
  | None => true
  end.

(** The four operations on a bare finite map, without a prototype:
    lookup, insert, delete and clear, answering as the handlers do. *)
Definition dict_handle (r : request) (m : gmap string string)
  : reply * gmap string string :=
  match r with
  | GET key =>
      match m !! key with
      | Some v => (res_send (VString v), m)
      | None => (not_found, m)
      end
  | PUT key body => (res_send (VString body), <[key := body]> m)
  | DELETE key => (res_json [("deleted", key)], delete key m)
  | DELETE_ALL => (res_json [("deleted", "all")], ∅)
  end.

(** Requests that assign to the store. *)
Definition is_put (r : request) : bool :=
  match r with
  | PUT _ _ => true
  | _ => false
  end.

Fixpoint dict_serve (rs : list request) (m : gmap string string)
  : list reply * gmap string string :=
  match rs with
  | [] => ([], m)
  | r :: rs =>
      let '(a, m) := dict_handle r m in
      let '(as_, m) := dict_serve rs m in
      (a :: as_, m)
  end.

End Traffic.

(** ** Between the wire and the handlers *)

Module Http.
Import JS Server.

(** *** [app.use(bodyParser.text({type: '*/*'}))] *)

(** The charset of a body: UTF-8, named by the request or taken by
    default, or a charset the decoder does not have.  Bodies in other
    charsets the decoder has are not represented. *)
Inductive charset :=
| Utf8
| UnknownCharset.

(** A body as the parser meets it: sent with a Content-Length and without
    Content-Encoding.  [content] is the text of the body; a string stands
    for its UTF-8 bytes, so its length is the length the limit applies
    to. *)
Record entity := {
  typed : bool;          (* a Content-Type header names a media type *)
  encoding : charset;
  content : string;
}.

Inductive incoming :=
| NoBody                 (* neither Content-Length nor Transfer-Encoding *)
| Body (e : entity).

(** What the parser leaves for Express. *)
Inductive parsed :=
| Text (v : string)      (* req.body = v, next() *)
| Unparsed               (* next() with req.body untouched: not a string *)
| Refused (code : nat).  (* next(err), answered with err.status *)

(** The default [limit] option, ['100kb']. *)
Definition limit : N := 102400.

(** The parser with [type: '*/*'] and every other option at its default:
    it steps aside when there is no body or no media type (['*/*'] matches
    every media type, but only a media type), refuses a body longer than
    the limit with 413 and an unknown charset with 415, and otherwise
    hands the text over. *)
Definition bodyParser_text (b : incoming) : parsed :=
  match b with
  | NoBody => Unparsed
  | Body e =>
      if negb (typed e) then Unparsed
      else if (limit <? N.of_nat (String.length (content e)))%N
      then Refused 413
      else match encoding e with
           | UnknownCharset => Refused 415
           | Utf8 => Text (content e)
           end
  end.

(** The fate of a PUT whose path matched [/:key]. *)
Inductive outcome :=
| Handled (a : reply) (store : gmap string string)
                         (* the handler ran with a text body *)
| Rejected (code : nat) (store : gmap string string)
                         (* the parser refused; the handler did not run *)
| NotText.               (* the handler ran with a req.body that is not
                            text; what it stores and sends is not
                            described here *)

(** [PUT /:key], from the parser to the handler. *)
Definition http_put (key : string) (b : incoming) (store : object)
  : outcome :=
  match bodyParser_text b with
  | Text v => let '(a, store) := app_put key v store in Handled a store
  | Refused code => Rejected code store
  | Unparsed => NotText
  end.

(** A text of [n] copies of one character. *)
Fixpoint repeat_char (n : nat) (c : Ascii.ascii) : string :=
  match n with
  | O => EmptyString
  | S n => String c (repeat_char n c)
  end.

(** *** [app.listen(port, ...)] *)

(** What [net.Server.listen] does with a port. *)
Inductive listening :=
| Tcp (p : Z)            (* binds TCP port p on the unspecified address *)
| Ephemeral              (* port 0: the operating system picks the port *)
| BadPort.               (* validatePort throws ERR_SOCKET_BAD_PORT *)

(** [Number(s)] for a non-empty string of decimal digits. *)
Definition digit (c : Ascii.ascii) : option Z :=
  let n := Z.of_nat (Ascii.nat_of_ascii c) in
  if (48 <=? n)%Z && (n <=? 57)%Z then Some (n - 48)%Z else None.

Fixpoint digits (s : string) (acc : Z) : option Z :=
  match s with
  | EmptyString => Some acc
  | String c s =>
      match digit c with
      | Some d => digits s (10 * acc + d)%Z
      | None => None
      end
  end.

Definition decimal (s : string) : option Z :=
  match s with
  | EmptyString => None
  | _ => digits s 0
  end.

(** [validatePort] on an integer, then the bind. *)
Definition tcp_port (n : Z) : listening :=
  if (n <? 0)%Z || (65535 <? n)%Z then BadPort
  else if (n =? 0)%Z then Ephemeral
  else Tcp n.

(** [listen] on a number or on a string of decimal digits; other
    arguments (a pipe name, a string [Number] reads in another way) are
    not described. *)
Definition listen (port : value) : option listening :=
  match port with
  | VNumber n => Some (tcp_port n)
  | VString s => tcp_port <$> decimal s
  | _ => None
  end.

(** [app.listen(port, ...)] with [port] read from the environment. *)
Definition app_listen (env : gmap string string) : option listening :=
  listen (port env).

End Http.

Import JS Server Traffic Http.

(** ** The object operations *)

Section object_facts.
Implicit Types (o : gmap string string) (k s : string).

Lemma js_in_spec k o :
  js_in k o = true ↔ is_Some (o !! k) ∨ is_Some (object_prototype k).
Proof.
  unfold js_in, has_own.
  rewrite orb_true_iff, !bool_decide_eq_true. reflexivity.
Qed.

Lemma js_in_false k o :
  js_in k o = false ↔ o !! k = None ∧ object_prototype k = None.
Proof.
  rewrite <- not_true_iff_false, js_in_spec, !eq_None_not_Some.
  tauto.
Qed.

Lemma object_prototype_proto k :
  object_prototype k = Some ProtoAccessor ↔ k = "__proto__".
Proof.
  unfold object_prototype.
  destruct (decide (k = "__proto__")); [naive_solver|].
  destruct (decide (k ∈ prototype_methods)); naive_solver.
Qed.

Lemma js_set_lookup k s o :
  k ≠ "__proto__" → js_set o k s !! k = Some s.
Proof.
  intros Hk. unfold js_set.
  destruct (o !! k) eqn:Hown; [apply lookup_insert_eq|].
  destruct (object_prototype k) as [[]|] eqn:Hp;
    try apply lookup_insert_eq.
  apply object_prototype_proto in Hp. contradiction.
Qed.

Lemma js_set_lookup_ne k k' s o :
  k ≠ k' → js_set o k s !! k' = o !! k'.
Proof.
  intros Hk. unfold js_set.
  destruct (o !! k); [by apply lookup_insert_ne|].
  destruct (object_prototype k) as [[]|];
    by try apply lookup_insert_ne.
Qed.

Lemma js_set_proto_accessor s o :
  o !! "__proto__" = None → js_set o "__proto__" s = o.
Proof. intros Hown. unfold js_set. by rewrite Hown. Qed.

Lemma js_in_lookup k' o o' :
  o' !! k' = o !! k' → js_in k' o' = js_in k' o.
Proof. intros Heq. unfold js_in, has_own. by rewrite Heq. Qed.

Lemma js_get_lookup k' o o' :
  o' !! k' = o !! k' → js_get o' k' = js_get o k'.
Proof. intros Heq. unfold js_get. by rewrite Heq. Qed.

Lemma elem_of_js_keys k o : k ∈ js_keys o ↔ is_Some (o !! k).
Proof.
  unfold js_keys. rewrite list_elem_of_fmap. split.
  - intros [[k1 s] [-> Hin]]. apply elem_of_map_to_list in Hin.
    by exists s.
  - intros [s Hs]. exists (k, s). split; [done|].
    by apply elem_of_map_to_list.
Qed.

(** Deleting every name of a list that covers the own properties leaves
    an object without own properties. *)
Lemma delete_each_covering (ks : list string) o :
  (∀ k, is_Some (o !! k) → k ∈ ks) →
  foldl (λ o k, js_delete o k) o ks = ∅.
Proof.
  revert o. induction ks as [|k0 ks IH]; intros o Hcover; simpl.
  - apply map_empty. intros k. apply eq_None_not_Some.
    intros Hk. apply Hcover in Hk. by apply elem_of_nil in Hk.
  - apply IH. intros k Hk. unfold js_delete in Hk.
    destruct (decide (k0 = k)) as [->|Hne].
    + rewrite lookup_delete_eq in Hk. by destruct Hk.
    + rewrite lookup_delete_ne in Hk by done.
      apply Hcover in Hk. apply elem_of_cons in Hk as [Heq|Hin]; [|done].
      by destruct Hne.
Qed.

Lemma delete_each_key o :
  foldl (λ o k, js_delete o k) o (js_keys o) = ∅.
Proof. apply delete_each_covering. intros k. by rewrite elem_of_js_keys. Qed.

End object_facts.

(** ** The handlers *)

Section handler_facts.
Implicit Types (st : gmap string string) (k v : string).

(** GET answers NotFound exactly when the key is neither an own
    property of the store nor a property of [Object.prototype]. *)
Lemma app_get_not_found k st :
  (app_get k st).1 = not_found ↔
  st !! k = None ∧ object_prototype k = None.
Proof.
  rewrite <- js_in_false. unfold app_get.
  destruct (js_in k st); simpl; [|done].
  split; [|done]. unfold not_found. discriminate.
Qed.

Lemma app_get_stored k v st :
  st !! k = Some v → (app_get k st).1 = res_send (VString v).
Proof.
  intros Hown. unfold app_get.
  assert (js_in k st = true) as ->
    by (apply js_in_spec; left; by exists v).
  simpl. unfold js_get. by rewrite Hown.
Qed.

(** PUT then GET gives the body back for every key but [__proto__]. *)
Lemma put_get_other_than_proto k v st :
  k ≠ "__proto__" →
  (app_get k (app_put k v st).2).1 = res_send (VString v).
Proof. intros Hk. apply app_get_stored. simpl. by apply js_set_lookup. Qed.

(** DELETE then GET is NotFound for every key that [Object.prototype]
    does not name. *)
Lemma delete_get_not_inherited k st :
  object_prototype k = None →
  (app_get k (app_delete k st).2).1 = not_found.
Proof.
  intros Hp. apply app_get_not_found. split; [|done].
  simpl. apply lookup_delete_eq.
Qed.

(** DELETE / leaves no own property, whatever the store held. *)
Lemma app_delete_all_store st : (app_delete_all st).2 = ∅.
Proof. simpl. apply delete_each_key. Qed.

Lemma app_delete_all_reply st :
  (app_delete_all st).1 = res_json [("deleted", "all")].
Proof. reflexivity. Qed.

Lemma app_delete_all_idempotent st :
  app_delete_all (app_delete_all st).2 = app_delete_all st.
Proof.
  unfold app_delete_all at 1 3. f_equal.
  by rewrite !delete_each_key.
Qed.

Lemma delete_all_get_not_inherited k st :
  object_prototype k = None →
  (app_get k (app_delete_all st).2).1 = not_found.
Proof.
  intros Hp. apply app_get_not_found. split; [|done].
  rewrite app_delete_all_store. apply lookup_empty.
Qed.

Lemma serve_cons (r : request) (rs : list request) st :
  serve (r :: rs) st
  = ((handle r st).1 :: (serve rs (handle r st).2).1,
     (serve rs (handle r st).2).2).
Proof.
  simpl. destruct (handle r st) as [a st1].
  simpl. by destruct (serve rs st1).
Qed.

(** GET returns the store it was given. *)
Lemma app_get_store k st : (app_get k st).2 = st.
Proof. unfold app_get. by destruct (negb (js_in k st)). Qed.

(** No assignment of a handler ever makes [__proto__] an own property. *)
Lemma reachable_no_own_proto st :
  reachable st → st !! "__proto__" = None.
Proof.
  induction 1 as [|r st Hst IH]; [done|].
  destruct r as [k|k v|k|]; cbn [handle].
  - by rewrite app_get_store.
  - destruct (decide (k = "__proto__")) as [->|Hk].
    + simpl. by rewrite js_set_proto_accessor.
    + simpl. by rewrite js_set_lookup_ne.
  - simpl. unfold js_delete.
    destruct (decide (k = "__proto__")) as [->|Hk].
    + apply lookup_delete_eq.
    + by rewrite lookup_delete_ne.
  - by rewrite app_delete_all_store.
Qed.

(** On every store the process can be in, PUT on [__proto__] changes
    nothing and the GET that follows sends [Object.prototype]. *)
Lemma put_get_proto_reachable v st :
  reachable st →
  (app_put "__proto__" v st).2 = st ∧
  (app_get "__proto__" (app_put "__proto__" v st).2).1
    = res_send VObjectPrototype.
Proof.
  intros Hown%reachable_no_own_proto.
  assert ((app_put "__proto__" v st).2 = st) as Hput
    by (simpl; by apply js_set_proto_accessor).
  split; [done|]. rewrite Hput.
  unfold app_get, js_in, has_own, js_get. rewrite Hown.
  rewrite bool_decide_eq_false_2 by (apply is_Some_None).
  reflexivity.
Qed.

(** No handler other than GET answers NotFound. *)
Lemma not_found_only_from_get (r : request) st :
  (handle r st).1 = not_found →
  ∃ k, r = GET k ∧ st !! k = None ∧ object_prototype k = None.
Proof.
  destruct r as [k|k v|k|]; simpl; try discriminate.
  intros Hnf. exists k. split; [done|]. by apply app_get_not_found.
Qed.

End handler_facts.

(** ** The scenarios of the documentation *)

Example scenario_session :
  (serve [PUT "session-123" "active"; GET "session-123";
          DELETE "session-123"; GET "session-123"] store).1
  = [res_send (VString "active"); res_send (VString "active");
     res_json [("deleted", "session-123")]; not_found].
Proof. vm_compute. reflexivity. Qed.

Example scenario_missing : (app_get "missing" store).1 = not_found.
Proof. vm_compute. reflexivity. Qed.

Example scenario_wipe :
  (serve [PUT "a" "1"; PUT "b" "2"; DELETE_ALL; GET "a"; GET "b"] store).1
  = [res_send (VString "1"); res_send (VString "2");
     res_json [("deleted", "all")]; not_found; not_found].
Proof. vm_compute. reflexivity. Qed.

(** Every name of [Object.prototype] is found by GET on the store the
    process starts with. *)
Lemma get_inherited_names :
  Forall (λ k, (app_get k store).1 = res_send (VBuiltin k)) prototype_methods.
Proof. unfold prototype_methods. repeat constructor. Qed.

(** ** The properties of the specification *)

(** C1.  PUT then GET on the same key does not give the body back when the
    key is [__proto__]: on the store the process starts with, the
    assignment [store[key] = req.body] reaches the setter inherited from
    [Object.prototype], which ignores a string, and the GET that follows
    finds the inherited accessor and sends [Object.prototype]. *)
Theorem put_get_proto_key (v : string) :
  (app_put "__proto__" v store).2 = store ∧
  (app_get "__proto__" (app_put "__proto__" v store).2).1
    = res_send VObjectPrototype ∧
  (app_get "__proto__" (app_put "__proto__" v store).2).1
    ≠ res_send (VString v).
Proof. vm_compute. repeat split. discriminate. Qed.

(** C2.  GET of a key that was never PUT is not NotFound when the key is a
    name of [Object.prototype]: on the store the process starts with,
    [GET /toString] passes the test [key in store] and sends the inherited
    function. *)
Theorem get_never_put_toString :
  (app_get "toString" store).1 = res_send (VBuiltin "toString") ∧
  (app_get "toString" store).1 ≠ not_found.
Proof. vm_compute. split; [reflexivity | discriminate]. Qed.

(** C3.  DELETE then GET on the same key is not NotFound when the key is a
    name of [Object.prototype]: whatever the store holds, after
    [DELETE /toString] the handler of [GET /toString] sends the inherited
    function. *)
Theorem delete_get_toString (st : gmap string string) :
  (app_get "toString" (app_delete "toString" st).2).1
    = res_send (VBuiltin "toString") ∧
  (app_get "toString" (app_delete "toString" st).2).1 ≠ not_found.
Proof.
  assert ((app_get "toString" (app_delete "toString" st).2).1
          = res_send (VBuiltin "toString")) as Hget.
  { unfold app_get, app_delete, js_in, has_own, js_get, js_delete. simpl.
    rewrite lookup_delete_eq.
    rewrite bool_decide_eq_false_2 by (intros [? ?]; discriminate).
    reflexivity. }
  rewrite Hget. split; [reflexivity | discriminate].
Qed.

(** C4.  Two PUTs then a GET on the key [__proto__] give neither body: on
    the store the process starts with, both assignments are absorbed by
    the inherited setter and the GET sends [Object.prototype]. *)
Theorem put_put_get_proto_key (v1 v2 : string) :
  (serve [PUT "__proto__" v1; PUT "__proto__" v2; GET "__proto__"] store).1
    = [res_send (VString v1); res_send (VString v2);
       res_send VObjectPrototype] ∧
  res_send VObjectPrototype ≠ res_send (VString v2).
Proof. vm_compute. split; [reflexivity | discriminate]. Qed.

(** C5.  After [DELETE /] a key that was PUT and not deleted is not
    NotFound when it is a name of [Object.prototype]: PUT /toString,
    DELETE /, GET /toString on the store the process starts with ends by
    sending the inherited function.  The wipe itself answers
    [{deleted: 'all'}] and leaves no own property. *)
Theorem put_delete_all_get_toString (v : string) :
  serve [PUT "toString" v; DELETE_ALL; GET "toString"] store
    = ([res_send (VString v); res_json [("deleted", "all")];
        res_send (VBuiltin "toString")], ∅) ∧
  res_send (VBuiltin "toString") ≠ not_found.
Proof.
  split; [|discriminate].
  rewrite !serve_cons. cbn [serve handle].
  rewrite app_delete_all_store. reflexivity.
Qed.

(** C6.  [DELETE /:key] answers [{deleted: key}] with status 200 for every
    key and every store, whether or not the key was an own property. *)
Theorem delete_acknowledges (k : string) (st : gmap string string) :
  (app_delete k st).1 = res_json [("deleted", k)] ∧
  status_of (app_delete k st).1 = Some 200.
Proof. split; reflexivity. Qed.

(** C7.  [GET /:key] leaves the store as it found it, on both of its
    branches. *)
Theorem get_keeps_store (k : string) (st : gmap string string) :
  (app_get k st).2 = st.
Proof. apply app_get_store. Qed.

Lemma length_repeat_char (n : nat) (c : ascii) :
  String.length (repeat_char n c) = n.
Proof. induction n as [|n IH]; simpl; by rewrite ?IH. Qed.




(** C9.  PUT and DELETE on a key [k] leave every other key [k'] as it was:
    the own property of [k'] (present with the same value, or absent) is
    unchanged, and so is the answer of [GET k']. *)
Theorem put_delete_local (k k' v : string) (st : gmap string string) :
  k ≠ k' →
  (app_put k v st).2 !! k' = st !! k' ∧
  (app_delete k st).2 !! k' = st !! k' ∧
  (app_get k' (app_put k v st).2).1 = (app_get k' st).1 ∧
  (app_get k' (app_delete k st).2).1 = (app_get k' st).1.
Proof.
  intros Hne.
  assert ((app_put k v st).2 !! k' = st !! k') as Hput
    by (by apply js_set_lookup_ne).
  assert ((app_delete k st).2 !! k' = st !! k') as Hdel
    by (by apply lookup_delete_ne).
  repeat split; try done; unfold app_get.
  - rewrite (js_in_lookup _ _ _ Hput), (js_get_lookup _ _ _ Hput).
    by destruct (js_in k' st).
  - rewrite (js_in_lookup _ _ _ Hdel), (js_get_lookup _ _ _ Hdel).
    by destruct (js_in k' st).
Qed.

Lemma put_delete_local_witness :
  "a" ≠ "b" ∧
  (app_put "a" "1" {["b" := "2"]}).2 !! "b"
    = ({["b" := "2"]} : gmap string string) !! "b" ∧
  (app_delete "a" {["b" := "2"]}).2 !! "b"
    = ({["b" := "2"]} : gmap string string) !! "b" ∧
  (app_get "b" (app_put "a" "1" {["b" := "2"]}).2).1
    = (app_get "b" {["b" := "2"]}).1 ∧
  (app_get "b" (app_delete "a" {["b" := "2"]}).2).1
    = (app_get "b" {["b" := "2"]}).1.
Proof.
  split; [discriminate|].
  apply (put_delete_local "a" "b" "1" {["b" := "2"]}). discriminate.
Defined.

(** The argument of [app.listen]: the value of PORT when the variable is
    set to a non-empty string, and the number 3000 when the variable is
    absent or empty. *)
Lemma port_selection (env : gmap string string) :
  match env !! "PORT" with
  | Some s => if decide (s = EmptyString) then port env = VNumber 3000
              else port env = VString s
  | None => port env = VNumber 3000
  end.
Proof.
  unfold port, env_PORT, js_or.
  destruct (env !! "PORT") as [s|]; [|reflexivity].
  destruct (decide (s = EmptyString)) as [->|Hs]; [reflexivity|].
  simpl. by destruct (String.eqb_spec s EmptyString).
Qed.

Lemma port_of_decimal (env : gmap string string) (s : string) (n : Z) :
  env !! "PORT" = Some s → decimal s = Some n →
  app_listen env = Some (tcp_port n).
Proof.
  intros Henv Hs. unfold app_listen.
  pose proof (port_selection env) as Hport. rewrite Henv in Hport.
  destruct (decide (s = EmptyString)) as [->|_]; [discriminate Hs|].
  rewrite Hport. simpl. by rewrite Hs.
Qed.

(** C10, as stated, fails when PORT is set to the integer 99999: the
    value is handed to [app.listen] as it is, [validatePort] throws, and
    the service listens on no port. *)
Lemma port_99999_not_bound :
  ({["PORT" := "99999"]} : gmap string string) !! "PORT" = Some "99999" ∧
  decimal "99999" = Some 99999%Z ∧
  app_listen {["PORT" := "99999"]} = Some BadPort ∧
  app_listen {["PORT" := "99999"]} ≠ Some (Tcp 99999).
Proof. vm_compute. repeat split. discriminate. Qed.

(** C10, amended.  When PORT is absent the service binds TCP port 3000.
    When PORT is set to a decimal integer [n], the service binds TCP port
    [n] if [n] lies between 1 and 65535; for 0 the operating system picks
    the port, and above 65535 [app.listen] throws. *)
Theorem listen_selection (env : gmap string string) (s : string) (n : Z) :
  (env !! "PORT" = None → app_listen env = Some (Tcp 3000)) ∧
  (env !! "PORT" = Some s → decimal s = Some n → (1 ≤ n ≤ 65535)%Z →
   app_listen env = Some (Tcp n)) ∧
  (env !! "PORT" = Some s → decimal s = Some n → n = 0%Z →
   app_listen env = Some Ephemeral) ∧
  (env !! "PORT" = Some s → decimal s = Some n → (65535 < n)%Z →
   app_listen env = Some BadPort).
Proof.
  repeat split.
  - intros Henv. unfold app_listen.
    pose proof (port_selection env) as Hport. rewrite Henv in Hport.
    by rewrite Hport.
  - intros Henv Hs [Hlo Hhi]. rewrite (port_of_decimal env s n) by done.
    unfold tcp_port.
    rewrite (proj2 (Z.ltb_ge n 0)) by lia.
    rewrite (proj2 (Z.ltb_ge 65535 n)) by lia.
    rewrite (proj2 (Z.eqb_neq n 0)) by lia. reflexivity.
  - intros Henv Hs ->. by rewrite (port_of_decimal env s 0).
  - intros Henv Hs Hhi. rewrite (port_of_decimal env s n) by done.
    unfold tcp_port.
    rewrite (proj2 (Z.ltb_ge n 0)) by lia.
    by rewrite (proj2 (Z.ltb_lt 65535 n)) by lia.
Qed.

Lemma listen_selection_witness :
  app_listen ∅ = Some (Tcp 3000) ∧
  (decimal "8080" = Some 8080%Z ∧
   app_listen {["PORT" := "8080"]} = Some (Tcp 8080)) ∧
  (decimal "0" = Some 0%Z ∧
   app_listen {["PORT" := "0"]} = Some Ephemeral) ∧
  (decimal "70000" = Some 70000%Z ∧
   app_listen {["PORT" := "70000"]} = Some BadPort).
Proof.
  split; [|split; [|split]].
  - apply (proj1 (listen_selection ∅ "3000" 3000)). reflexivity.
  - split; [reflexivity|].
    apply (proj1 (proj2 (listen_selection {["PORT" := "8080"]} "8080" 8080)));
      [reflexivity | reflexivity | lia].
  - split; [reflexivity|].
    apply (proj1 (proj2 (proj2 (listen_selection {["PORT" := "0"]} "0" 0))));
      reflexivity.
  - split; [reflexivity|].
    apply (proj2 (proj2 (proj2
             (listen_selection {["PORT" := "70000"]} "70000" 70000))));
      [reflexivity | reflexivity | lia].
Defined.

(** ** Sequences of requests *)

Section traffic_facts.
Implicit Types (st : gmap string string) (k v : string).
Implicit Types (r : request) (rs : list request).

Lemma serve_app rs1 rs2 st :
  serve (rs1 ++ rs2)%list st
  = (((serve rs1 st).1 ++ (serve rs2 (serve rs1 st).2).1)%list,
     (serve rs2 (serve rs1 st).2).2).
Proof.
  revert st. induction rs1 as [|r rs1 IH]; intros st.
  - simpl. by destruct (serve rs2 st).
  - rewrite <- app_comm_cons, !serve_cons, IH. reflexivity.
Qed.

Lemma serve_reachable rs st : reachable st → reachable (serve rs st).2.
Proof.
  revert st. induction rs as [|r rs IH]; intros st Hst; [done|].
  rewrite serve_cons. simpl. by apply IH, reachable_handle.
Qed.

Lemma handle_unwritten k r st :
  writes k r = false → (handle r st).2 !! k = st !! k.
Proof.
  destruct r as [k'|k' v|k'|]; simpl; intros Hw; try done.
  - by rewrite app_get_store.
  - apply bool_decide_eq_false in Hw. by apply js_set_lookup_ne.
  - apply bool_decide_eq_false in Hw. by apply lookup_delete_ne.
Qed.

Lemma serve_unwritten k rs st :
  forallb (λ r, negb (writes k r)) rs = true →
  (serve rs st).2 !! k = st !! k.
Proof.
  revert st. induction rs as [|r rs IH]; intros st Hrs; [done|].
  simpl in Hrs. apply andb_true_iff in Hrs as [Hr Hrs].
  apply negb_true_iff in Hr.
  rewrite serve_cons. simpl. rewrite IH by done.
  by apply handle_unwritten.
Qed.

Lemma app_get_lookup k st st' :
  st' !! k = st !! k → (app_get k st').1 = (app_get k st).1.
Proof.
  intros Heq. unfold app_get.
  rewrite (js_in_lookup _ _ _ Heq), (js_get_lookup _ _ _ Heq).
  by destruct (js_in k st).
Qed.

Lemma js_in_ordinary k st :
  object_prototype k = None → js_in k st = has_own st k.
Proof. intros Hp. unfold js_in. rewrite Hp. apply orb_false_r. Qed.

Lemma js_set_ordinary k v st :
  k ≠ "__proto__" → js_set st k v = <[k := v]> st.
Proof.
  intros Hk. unfold js_set. destruct (st !! k); [done|].
  destruct (object_prototype k) as [[]|] eqn:Hp; try done.
  apply object_prototype_proto in Hp. contradiction.
Qed.

Lemma handle_ordinary r st :
  ordinary r = true → handle r st = dict_handle r st.
Proof.
  destruct r as [k|k v|k|]; unfold ordinary; simpl.
  - intros Hp%bool_decide_eq_true. unfold app_get, js_get.
    rewrite js_in_ordinary by done. unfold has_own.
    destruct (st !! k) as [w|] eqn:Hown.
    + by rewrite bool_decide_eq_true_2.
    + rewrite bool_decide_eq_false_2; [done|]. by apply is_Some_None.
  - intros Hp%bool_decide_eq_true. unfold app_put.
    rewrite js_set_ordinary; [done|].
    intros ->. discriminate Hp.
  - done.
  - intros _. unfold app_delete_all. by rewrite delete_each_key.
Qed.

Lemma handle_size r st :
  (size (handle r st).2 ≤ (if is_put r then 1 else 0) + size st)%nat.
Proof.
  destruct r as [k|k v|k|]; simpl.
  - by rewrite app_get_store.
  - unfold js_set.
    assert (size (<[k := v]> st) ≤ S (size st))%nat as Hins.
    { destruct (st !! k) eqn:Hown.
      - erewrite map_size_insert_Some by done. lia.
      - rewrite map_size_insert_None by done. lia. }
    destruct (st !! k); [done|].
    destruct (object_prototype k) as [[]|]; first [done|lia].
  - unfold js_delete. destruct (st !! k) eqn:Hown.
    + erewrite map_size_delete_Some by done. lia.
    + by rewrite delete_id.
  - rewrite delete_each_key, map_size_empty. lia.
Qed.

End traffic_facts.

(** ** Further properties of the handlers *)

(** X1.  PUT then GET on the same key sends the body back, with status
    200, for every store and every key other than [__proto__]; a stored
    value hides the property of [Object.prototype] with the same name. *)
Theorem put_then_get (k v : string) (st : gmap string string) :
  k ≠ "__proto__" →
  (app_get k (app_put k v st).2).1 = res_send (VString v) ∧
  status_of (app_get k (app_put k v st).2).1 = Some 200.
Proof.
  intros Hk. rewrite put_get_other_than_proto by done. by split.
Qed.

Lemma put_then_get_witness :
  "toString" ≠ "__proto__" ∧
  (app_get "toString" (app_put "toString" "x" store).2).1
    = res_send (VString "x") ∧
  status_of (app_get "toString" (app_put "toString" "x" store).2).1
    = Some 200.
Proof.
  split; [discriminate|].
  apply (put_then_get "toString" "x" store). discriminate.
Defined.

(** X2.  GET answers NotFound exactly when the key is neither an own
    property of the store nor a property name of [Object.prototype]. *)
Theorem get_not_found_iff (k : string) (st : gmap string string) :
  (app_get k st).1 = not_found ↔
  st !! k = None ∧ object_prototype k = None.
Proof. apply app_get_not_found. Qed.

(** X4.  DELETE then GET on the same key answers NotFound, whatever the
    store held, for every key that is not a property name of
    [Object.prototype]. *)
Theorem delete_then_get (k : string) (st : gmap string string) :
  object_prototype k = None →
  (app_get k (app_delete k st).2).1 = not_found.
Proof. apply delete_get_not_inherited. Qed.

Lemma delete_then_get_witness :
  object_prototype "a" = None ∧
  (app_get "a" (app_delete "a" {["a" := "1"]}).2).1 = not_found.
Proof.
  split; [reflexivity|].
  apply (delete_then_get "a" {["a" := "1"]}). reflexivity.
Defined.

(** X5.  [DELETE /] leaves a store without own properties, whatever it
    held: deleting each name of [Object.keys(store)] in turn reaches every
    own property, and [Object.keys] of the result is empty. *)
Theorem delete_all_empties (st : gmap string string) :
  (app_delete_all st).2 = ∅ ∧ js_keys (app_delete_all st).2 = [].
Proof.
  rewrite app_delete_all_store. split; [done|].
  unfold js_keys. by rewrite map_to_list_empty.
Qed.

(** X6.  After [DELETE /], GET answers NotFound for every key that is not
    a property name of [Object.prototype], whatever the store held. *)
Theorem delete_all_then_get (k : string) (st : gmap string string) :
  object_prototype k = None →
  (app_get k (app_delete_all st).2).1 = not_found.
Proof. apply delete_all_get_not_inherited. Qed.

Lemma delete_all_then_get_witness :
  object_prototype "a" = None ∧
  (app_get "a" (app_delete_all {["a" := "1"; "b" := "2"]}).2).1 = not_found.
Proof.
  split; [reflexivity|].
  apply (delete_all_then_get "a" {["a" := "1"; "b" := "2"]}). reflexivity.
Defined.

(** X7.  Among the four route handlers, status 404 comes from one place
    only: once a route has matched, the handler answers 404 exactly when
    the route is [GET /:key] and the key is neither an own property of the
    store nor a property name of [Object.prototype].  (A request that
    matches no route never reaches a handler; Express answers it.) *)
Theorem status_404_iff (r : request) (st : gmap string string) :
  status_of (handle r st).1 = Some 404 ↔
  ∃ k, r = GET k ∧ st !! k = None ∧ object_prototype k = None.
Proof.
  split.
  - destruct r as [k|k v|k|]; simpl; try discriminate.
    intros Hst. exists k. split; [done|].
    apply js_in_false. unfold app_get in Hst.
    destruct (js_in k st); [|done].
    simpl in Hst. by destruct (js_get st k).
  - intros (k & -> & Hown & Hp). simpl.
    by rewrite (proj2 (app_get_not_found k st) (conj Hown Hp)).
Qed.

(** X8.  Whatever requests have been served since the process started,
    [__proto__] is not an own property of the store. *)
Theorem proto_never_own (rs : list request) :
  (serve rs store).2 !! "__proto__" = None.
Proof.
  apply reachable_no_own_proto, serve_reachable, reachable_start.
Qed.

(** X9.  After any sequence of routed requests whose PUTs carried a text
    body, served since the process started, a PUT on [__proto__] with a
    text body leaves the store as it was, and the GET that follows sends
    [Object.prototype]. *)
Theorem put_proto_absorbed (rs : list request) (v : string) :
  (app_put "__proto__" v (serve rs store).2).2 = (serve rs store).2 ∧
  (app_get "__proto__" (app_put "__proto__" v (serve rs store).2).2).1
    = res_send VObjectPrototype.
Proof.
  apply put_get_proto_reachable, serve_reachable, reachable_start.
Qed.

(** X10.  DELETE is idempotent: a second DELETE of the same key gives the
    same answer and the same store as the first. *)
Theorem delete_idempotent (k : string) (st : gmap string string) :
  app_delete k (app_delete k st).2 = app_delete k st.
Proof. unfold app_delete, js_delete. simpl. by rewrite delete_delete_eq. Qed.

(** X11.  DELETE of a key that is not an own property leaves the store
    unchanged and still acknowledges. *)
Theorem delete_absent (k : string) (st : gmap string string) :
  st !! k = None →
  app_delete k st = (res_json [("deleted", k)], st).
Proof.
  intros Hown. unfold app_delete, js_delete. by rewrite delete_id.
Qed.

Lemma delete_absent_witness :
  ({["b" := "2"]} : gmap string string) !! "a" = None ∧
  app_delete "a" {["b" := "2"]}
    = (res_json [("deleted", "a")], {["b" := "2"]}).
Proof.
  split; [reflexivity|].
  apply (delete_absent "a" {["b" := "2"]}). reflexivity.
Defined.

(** X12.  A PUT overwrites: two PUTs on one key leave the answer and the
    store of the second PUT alone, for every key and store. *)
Theorem put_overwrites (k v1 v2 : string) (st : gmap string string) :
  app_put k v2 (app_put k v1 st).2 = app_put k v2 st.
Proof.
  unfold app_put. simpl. f_equal. unfold js_set.
  destruct (st !! k) eqn:Hown.
  - by rewrite lookup_insert_eq, insert_insert_eq.
  - destruct (object_prototype k) as [[]|] eqn:Hp;
      rewrite ?Hown, ?Hp, ?lookup_insert_eq, ?insert_insert_eq; done.
Qed.

(** X13.  A PUT followed by a DELETE of the same key leaves the answer and
    the store of the DELETE alone, for every key and store. *)
Theorem put_then_delete (k v : string) (st : gmap string string) :
  app_delete k (app_put k v st).2 = app_delete k st.
Proof.
  unfold app_delete, app_put, js_delete, js_set. simpl. f_equal.
  destruct (st !! k); [by rewrite delete_insert_eq|].
  destruct (object_prototype k) as [[]|]; by rewrite ?delete_insert_eq.
Qed.

(** X14.  Writes to different keys commute: the store does not depend on
    the order of two PUTs, of a PUT and a DELETE, or of two DELETEs, on
    distinct keys. *)
Theorem writes_commute (k1 k2 v1 v2 : string) (st : gmap string string) :
  k1 ≠ k2 →
  (app_put k2 v2 (app_put k1 v1 st).2).2
    = (app_put k1 v1 (app_put k2 v2 st).2).2 ∧
  (app_delete k2 (app_put k1 v1 st).2).2
    = (app_put k1 v1 (app_delete k2 st).2).2 ∧
  (app_delete k2 (app_delete k1 st).2).2
    = (app_delete k1 (app_delete k2 st).2).2.
Proof.
  intros Hne. simpl. split; [|split].
  - unfold js_set at 1 3.
    rewrite !js_set_lookup_ne by done.
    unfold js_set.
    destruct (st !! k1), (st !! k2);
      destruct (object_prototype k1) as [[]|];
      destruct (object_prototype k2) as [[]|];
      by rewrite ?(insert_insert_ne _ k2 k1).
  - unfold js_delete, js_set. rewrite lookup_delete_ne by done.
    destruct (st !! k1); [by rewrite delete_insert_ne|].
    destruct (object_prototype k1) as [[]|]; by rewrite ?delete_insert_ne.
  - unfold js_delete. apply delete_delete.
Qed.

Lemma writes_commute_witness :
  "a" ≠ "b" ∧
  (app_put "b" "2" (app_put "a" "1" store).2).2
    = (app_put "a" "1" (app_put "b" "2" store).2).2 ∧
  (app_delete "b" (app_put "a" "1" store).2).2
    = (app_put "a" "1" (app_delete "b" store).2).2 ∧
  (app_delete "b" (app_delete "a" store).2).2
    = (app_delete "a" (app_delete "b" store).2).2.
Proof.
  split; [discriminate|].
  apply (writes_commute "a" "b" "1" "2" store). discriminate.
Defined.

(** X15.  A sequence of requests none of which is a PUT or DELETE of [k]
    or a [DELETE /] leaves [k] as it was: the own property is unchanged,
    and GET answers as it would have before the sequence. *)
Theorem unwritten_key_kept
    (k : string) (rs : list request) (st : gmap string string) :
  forallb (λ r, negb (writes k r)) rs = true →
  (serve rs st).2 !! k = st !! k ∧
  (app_get k (serve rs st).2).1 = (app_get k st).1.
Proof.
  intros Hrs. apply (serve_unwritten k rs st) in Hrs.
  split; [done|]. by apply app_get_lookup.
Qed.

Lemma unwritten_key_kept_witness :
  forallb (λ r, negb (writes "a" r))
    [PUT "b" "2"; GET "a"; DELETE "c"; GET "b"] = true ∧
  (serve [PUT "b" "2"; GET "a"; DELETE "c"; GET "b"] {["a" := "1"]}).2
    !! "a" = ({["a" := "1"]} : gmap string string) !! "a" ∧
  (app_get "a"
     (serve [PUT "b" "2"; GET "a"; DELETE "c"; GET "b"] {["a" := "1"]}).2).1
    = (app_get "a" {["a" := "1"]}).1.
Proof.
  split; [reflexivity|].
  apply (unwritten_key_kept "a"
           [PUT "b" "2"; GET "a"; DELETE "c"; GET "b"] {["a" := "1"]}).
  reflexivity.
Defined.

(** X16.  A value that was PUT is read back after any traffic that does
    not write its key: for every key other than [__proto__], the last
    answer of PUT k v, then requests that neither PUT nor DELETE [k] nor
    wipe the store, then GET k, is the body [v]. *)
Theorem read_your_write
    (k v : string) (rs : list request) (st : gmap string string) :
  k ≠ "__proto__" →
  forallb (λ r, negb (writes k r)) rs = true →
  last (serve (PUT k v :: rs ++ [GET k]) st).1 = Some (res_send (VString v)).
Proof.
  intros Hk Hrs.
  rewrite serve_cons, serve_app. cbn [fst snd handle].
  rewrite serve_cons. cbn [serve fst snd handle].
  rewrite app_comm_cons, last_snoc. f_equal.
  apply app_get_stored.
  rewrite serve_unwritten by done. simpl. by apply js_set_lookup.
Qed.

Lemma read_your_write_witness :
  "a" ≠ "__proto__" ∧
  forallb (λ r, negb (writes "a" r)) [PUT "b" "2"; DELETE "c"] = true ∧
  last (serve (PUT "a" "1" :: [PUT "b" "2"; DELETE "c"] ++ [GET "a"])
          store).1
    = Some (res_send (VString "1")).
Proof.
  split; [discriminate|]. split; [reflexivity|].
  apply (read_your_write "a" "1" [PUT "b" "2"; DELETE "c"] store);
    [discriminate | reflexivity].
Defined.

(** X17.  On keys that are not property names of [Object.prototype] the
    server is a dictionary: a sequence of requests with such keys gets the
    answers, and leaves the store, that lookup, insert, delete and clear
    give on a bare finite map, from every starting store. *)
Theorem serve_ordinary_is_dict
    (rs : list request) (st : gmap string string) :
  forallb ordinary rs = true →
  serve rs st = dict_serve rs st.
Proof.
  revert st. induction rs as [|r rs IH]; intros st Hrs; [done|].
  simpl in Hrs. apply andb_true_iff in Hrs as [Hr Hrs].
  simpl. rewrite (handle_ordinary r st) by done.
  destruct (dict_handle r st) as [a st1]. by rewrite IH.
Qed.

Lemma serve_ordinary_is_dict_witness :
  forallb ordinary
    [PUT "a" "1"; GET "a"; DELETE "a"; GET "a"; DELETE_ALL] = true ∧
  serve [PUT "a" "1"; GET "a"; DELETE "a"; GET "a"; DELETE_ALL] store
    = dict_serve [PUT "a" "1"; GET "a"; DELETE "a"; GET "a"; DELETE_ALL]
        store.
Proof.
  split; [reflexivity|].
  apply (serve_ordinary_is_dict
           [PUT "a" "1"; GET "a"; DELETE "a"; GET "a"; DELETE_ALL] store).
  reflexivity.
Defined.

(** X18.  The store grows by at most one own property per PUT: after any
    sequence of requests its size is at most its size before plus the
    number of PUTs in the sequence; GET and DELETE never add a key. *)
Theorem store_size_bounded (rs : list request) (st : gmap string string) :
  (size (serve rs st).2
   ≤ length (filter (λ r, is_put r = true) rs) + size st)%nat.
Proof.
  revert st. induction rs as [|r rs IH]; intros st; [simpl; lia|].
  rewrite serve_cons. cbn [snd].
  specialize (IH (handle r st).2).
  pose proof (handle_size r st) as Hstep.
  rewrite filter_cons.
  destruct (is_put r); simpl in *; lia.
Qed.
